(** * Steganography: hiding a byte payload between the characters of a text

    A shallow embedding of [steganography.py] ([can_encode],
    [iter_bits_of_str], [write_steganography], [read_steganography]) and the
    properties of its encoder and decoder.

    Python values are modelled as follows.
    - A [str] is a list of code points ([text]); a one-character [str] such
      as the marker [hidden_char] is a single code point ([char]).
    - A [bytes] object is a list of [Byte.byte].
    - The short strings of binary digits the program builds
      ([f"{byte:08b}"], [current_byte]) are Rocq [string]s.
    - A raised exception is the [Raise] case of [result]; the functions are
      written in the error monad.
    - [str.encode] and [bytes.decode] belong to the Python library: the
      program is parametrised by them (Section variables), and [Codecs]
      gives three concrete codecs to run the program on. *)

From Stdlib Require Import List String Ascii NArith Arith Bool Lia.
From Stdlib.Strings Require Import Byte.
Import ListNotations.

Open Scope string_scope.
Open Scope list_scope.
Open Scope nat_scope.

(** ** Python values and exceptions *)

Definition char := N.
Definition text := list char.
Definition bytes := list byte.

Inductive exn : Type :=
| ValueError (msg : string)
| UnicodeEncodeError
| UnicodeDecodeError
| LookupError
| StopIteration
| IndexError
| OverflowError
| OutOfFuel.   (* not a Python exception: a loop of the model ran out of fuel *)

Inductive result (A : Type) : Type :=
| Ok (a : A)
| Raise (e : exn).
Arguments Ok {A} a.
Arguments Raise {A} e.

Definition bind {A B : Type} (m : result A) (k : A -> result B) : result B :=
  match m with
  | Ok a => k a
  | Raise e => Raise e
  end.

Declare Scope py_scope.
Delimit Scope py_scope with py.
Notation "x <- m ;; k" := (bind m (fun x => k))
  (at level 61, m at next level, right associativity) : py_scope.
Notation "' pat <- m ;; k" := (bind m (fun x => match x with pat => k end))
  (at level 61, pat pattern, m at next level, right associativity) : py_scope.
Open Scope py_scope.

(** A text literal: the code points of an ASCII string. *)
Definition text_of_string (s : string) : text :=
  map N_of_ascii (list_ascii_of_string s).

Definition byte_of_N (n : N) : byte :=
  match Byte.of_N n with
  | Some b => b
  | None => x00
  end.

(** ** Concrete codecs

    The part of Python's codec registry the examples run on: [utf-8],
    [latin-1] and [utf-16-le], with the default [strict] error handling. *)
Module Codecs.

Definition is_surrogate (cp : N) : bool :=
  (0xD800 <=? cp)%N && (cp <=? 0xDFFF)%N.

Definition utf8_encode_char (cp : N) : result (list N) :=
  if (cp <? 0x80)%N then Ok [cp]
  else if (cp <? 0x800)%N then
    Ok [0xC0 + cp / 64; 0x80 + cp mod 64]%N
  else if (cp <? 0x10000)%N then
    if is_surrogate cp then Raise UnicodeEncodeError
    else Ok [0xE0 + cp / 4096; 0x80 + (cp / 64) mod 64; 0x80 + cp mod 64]%N
  else if (cp <? 0x110000)%N then
    Ok [0xF0 + cp / 262144; 0x80 + (cp / 4096) mod 64;
        0x80 + (cp / 64) mod 64; 0x80 + cp mod 64]%N
  else Raise UnicodeEncodeError.

Fixpoint encode_chars (f : N -> result (list N)) (s : text)
  : result (list N) :=
  match s with
  | [] => Ok []
  | cp :: s' =>
      bs <- f cp ;;
      rest <- encode_chars f s' ;;
      Ok (bs ++ rest)
  end.

Definition is_cont (b : N) : bool := (0x80 <=? b)%N && (b <? 0xC0)%N.

Definition cons_ok (cp : N) (r : result text) : result text :=
  s <- r ;; Ok (cp :: s).

Fixpoint utf8_decode_N (bs : list N) : result text :=
  match bs with
  | [] => Ok []
  | b0 :: r0 =>
      if (b0 <? 0x80)%N then cons_ok b0 (utf8_decode_N r0)
      else if (b0 <? 0xC0)%N then Raise UnicodeDecodeError
      else if (b0 <? 0xE0)%N then
        match r0 with
        | b1 :: r1 =>
            let cp := ((b0 - 0xC0) * 64 + (b1 - 0x80))%N in
            if is_cont b1 && (0x80 <=? cp)%N
            then cons_ok cp (utf8_decode_N r1)
            else Raise UnicodeDecodeError
        | _ => Raise UnicodeDecodeError
        end
      else if (b0 <? 0xF0)%N then
        match r0 with
        | b1 :: b2 :: r2 =>
            let cp := ((b0 - 0xE0) * 4096 + (b1 - 0x80) * 64
                       + (b2 - 0x80))%N in
            if is_cont b1 && is_cont b2 && (0x800 <=? cp)%N
               && negb (is_surrogate cp)
            then cons_ok cp (utf8_decode_N r2)
            else Raise UnicodeDecodeError
        | _ => Raise UnicodeDecodeError
        end
      else if (b0 <? 0xF8)%N then
        match r0 with
        | b1 :: b2 :: b3 :: r3 =>
            let cp := ((b0 - 0xF0) * 262144 + (b1 - 0x80) * 4096
                       + (b2 - 0x80) * 64 + (b3 - 0x80))%N in
            if is_cont b1 && is_cont b2 && is_cont b3
               && (0x10000 <=? cp)%N && (cp <? 0x110000)%N
            then cons_ok cp (utf8_decode_N r3)
            else Raise UnicodeDecodeError
        | _ => Raise UnicodeDecodeError
        end
      else Raise UnicodeDecodeError
  end.

Definition latin1_encode_char (cp : N) : result (list N) :=
  if (cp <? 0x100)%N then Ok [cp] else Raise UnicodeEncodeError.

Definition utf16le_unit (u : N) : list N := [u mod 256; u / 256]%N.

Definition utf16le_encode_char (cp : N) : result (list N) :=
  if (cp <? 0x10000)%N then
    if is_surrogate cp then Raise UnicodeEncodeError
    else Ok (utf16le_unit cp)
  else if (cp <? 0x110000)%N then
    let v := (cp - 0x10000)%N in
    Ok (utf16le_unit (0xD800 + v / 1024)
        ++ utf16le_unit (0xDC00 + v mod 1024))%N
  else Raise UnicodeEncodeError.

Fixpoint utf16le_decode_N (bs : list N) : result text :=
  match bs with
  | [] => Ok []
  | [_] => Raise UnicodeDecodeError
  | lo :: hi :: r =>
      let u := (hi * 256 + lo)%N in
      if (0xD800 <=? u)%N && (u <? 0xDC00)%N then
        match r with
        | lo2 :: hi2 :: r2 =>
            let u2 := (hi2 * 256 + lo2)%N in
            if (0xDC00 <=? u2)%N && (u2 <? 0xE000)%N
            then cons_ok (0x10000 + (u - 0xD800) * 1024 + (u2 - 0xDC00))%N
                   (utf16le_decode_N r2)
            else Raise UnicodeDecodeError
        | _ => Raise UnicodeDecodeError
        end
      else if is_surrogate u then Raise UnicodeDecodeError
      else cons_ok u (utf16le_decode_N r)
  end.

Definition to_bytes (r : result (list N)) : result bytes :=
  ns <- r ;; Ok (map byte_of_N ns).

(** [str_.encode(encoding)] *)
Definition str_encode (encoding : string) (str_ : text) : result bytes :=
  if String.eqb encoding "utf-8" then
    to_bytes (encode_chars utf8_encode_char str_)
  else if String.eqb encoding "latin-1" then
    to_bytes (encode_chars latin1_encode_char str_)
  else if String.eqb encoding "utf-16-le" then
    to_bytes (encode_chars utf16le_encode_char str_)
  else Raise LookupError.

(** [bytes_.decode(encoding)] *)
Definition bytes_decode (encoding : string) (bytes_ : bytes) : result text :=
  if String.eqb encoding "utf-8" then
    utf8_decode_N (map Byte.to_N bytes_)
  else if String.eqb encoding "latin-1" then
    Ok (map Byte.to_N bytes_)
  else if String.eqb encoding "utf-16-le" then
    utf16le_decode_N (map Byte.to_N bytes_)
  else Raise LookupError.

End Codecs.

(** ** Bit Sequencer: the digits of [f"{byte:08b}"] *)

(** The binary digits of a positive number, most significant first. *)
Fixpoint bin_pos (p : positive) : string :=
  match p with
  | xH => "1"
  | xO p' => bin_pos p' ++ "0"
  | xI p' => bin_pos p' ++ "1"
  end%string.

(** [f"{n:b}"] *)
Definition format_b (n : N) : string :=
  match n with
  | N0 => "0"
  | Npos p => bin_pos p
  end.

Fixpoint zeros (n : nat) : string :=
  match n with
  | O => ""
  | S n' => String "0" (zeros n')
  end.

(** [f"{byte:08b}"]: the binary digits, padded with zeros on the left to a
    width of at least eight. *)
Definition format_08b (byte_ : byte) : string :=
  let digits := format_b (Byte.to_N byte_) in
  (zeros (8 - String.length digits) ++ digits)%string.

(** [int(bit)] for a one-digit string; [format_08b] only produces the digits
    0 and 1. *)
Definition int_of_digit (bit : ascii) : N := (N_of_ascii bit - 48)%N.

(** [bool(n)] *)
Definition bool_of_int (n : N) : bool := negb (n =? 0)%N.

(** What the body of [iter_bits_of_str] yields for one byte. *)
Definition bits_of_byte (byte_ : byte) : list bool :=
  map (fun bit => bool_of_int (int_of_digit bit))
      (list_ascii_of_string (format_08b byte_)).

(** Everything the generator yields once the payload is known. *)
Definition bits_of_bytes (payload : bytes) : list bool :=
  flat_map bits_of_byte payload.

(** ** Decoder helpers *)

(** [int(s, 2)] on a string of binary digits; any other character is a
    [ValueError]. *)
Fixpoint int_base2_from (acc : N) (s : string) : result N :=
  match s with
  | EmptyString => Ok acc
  | String c s' =>
      if Ascii.eqb c "0" then int_base2_from (2 * acc) s'
      else if Ascii.eqb c "1" then int_base2_from (2 * acc + 1) s'
      else Raise (ValueError "invalid literal for int() with base 2")
  end.

Definition int_base2 (s : string) : result N :=
  match s with
  | EmptyString => Raise (ValueError "invalid literal for int() with base 2")
  | _ => int_base2_from 0 s
  end.

(** [n.to_bytes(1)] *)
Definition to_bytes_1 (n : N) : result bytes :=
  match Byte.of_N n with
  | Some b => Ok [b]
  | None => Raise OverflowError
  end.

(** [text[i]] *)
Definition getitem (text_ : text) (i : nat) : result char :=
  match nth_error text_ i with
  | Some c => Ok c
  | None => Raise IndexError
  end.

(** The iterator [enumerate(text)]: the index it yields next and the
    characters it has not yielded yet. *)
Record enumerate : Type := mk_enumerate {
  enum_index : nat;
  enum_rest : list char
}.

Definition enumerate_next (it : enumerate)
  : result (nat * char * enumerate) :=
  match enum_rest it with
  | [] => Raise StopIteration
  | c :: rest => Ok (enum_index it, c, mk_enumerate (S (enum_index it)) rest)
  end.

(** The variables of [read_steganography] that live across iterations. *)
Record reader : Type := mk_reader {
  text_chars : enumerate;
  hidden_bytes : bytes;
  current_byte : string
}.

(** How one run of a loop body ends. *)
Inductive control (A : Type) : Type :=
| Break (a : A)
| Continue (a : A).
Arguments Break {A} a.
Arguments Continue {A} a.

(** The default marker, U+200B. *)
Definition ZERO_WIDTH_SPACE : char := 0x200B%N.

Definition insufficient : exn :=
  ValueError "Given text is not long enough to contain hidden text".

(** ** The program *)

Section Steganography.

(** [str_.encode(encoding)] and [bytes_.decode(encoding)] *)
Variable str_encode : string -> text -> result bytes.
Variable bytes_decode : string -> bytes -> result text.

Definition can_encode (text_ : text) (hidden_text : text)
           (encoding : string) : result bool :=
  hidden_text_bytes <- str_encode encoding hidden_text ;;
  let required_chars := List.length hidden_text_bytes * 8 + 1 in
  Ok (required_chars <=? List.length text_).

(** The generator [iter_bits_of_str(str_, encoding)].  Its body does not
    run before the first [next]: [Suspended] holds the arguments,
    [Running] the bits still to be yielded. *)
Inductive bit_generator : Type :=
| Suspended (str_ : text) (encoding : string)
| Running (pending : list bool).

Definition pop_bit (pending : list bool) : result (bool * bit_generator) :=
  match pending with
  | [] => Raise StopIteration
  | bit :: pending' => Ok (bit, Running pending')
  end.

(** [next(hidden_text_bits)] *)
Definition generator_next (g : bit_generator)
  : result (bool * bit_generator) :=
  match g with
  | Suspended str_ encoding =>
      payload <- str_encode encoding str_ ;;
      pop_bit (bits_of_bytes payload)
  | Running pending => pop_bit pending
  end.

(** The loop [for char in text_chars] of [write_steganography]; it returns
    the buffer, what is left of [text_chars] and the generator. *)
Fixpoint write_loop (hidden_char : char) (text_chars_ : list char)
         (hidden_text_bits : bit_generator) (string_buffer : text)
  : result (text * list char * bit_generator) :=
  match text_chars_ with
  | [] => Ok (string_buffer, [], hidden_text_bits)
  | char_ :: text_chars' =>
      let string_buffer := string_buffer ++ [char_] in
      match generator_next hidden_text_bits with
      | Raise StopIteration =>
          Ok (string_buffer, text_chars', hidden_text_bits)
      | Raise e => Raise e
      | Ok (bit, hidden_text_bits') =>
          let string_buffer :=
            if bit : bool then string_buffer ++ [hidden_char]
            else string_buffer in
          write_loop hidden_char text_chars' hidden_text_bits' string_buffer
      end
  end.

Definition write_steganography (text_ : text) (hidden_text : text)
           (encoding : string) (hidden_char : char) : result text :=
  fits <- can_encode text_ hidden_text "utf-8" ;;
  if negb fits then Raise insufficient
  else
    let hidden_text_bits := Suspended hidden_text encoding in
    '(string_buffer, text_chars_, hidden_text_bits) <-
      write_loop hidden_char text_ hidden_text_bits [] ;;
    match generator_next hidden_text_bits with
    | Raise StopIteration => Ok (string_buffer ++ text_chars_)
    | Raise e => Raise e
    | Ok _ => Raise insufficient
    end.

(** The body of the loop of [read_steganography], after the [for] has
    taken [(index, char)] from [text_chars]. *)
Definition read_body (text_ : text) (hidden_char : char) (index : nat)
           (r : reader) : result (control reader) :=
  if List.length text_ <=? index + 1 then Ok (Break r)
  else
    next_char <- getitem text_ (index + 1) ;;
    r <- (if (next_char =? hidden_char)%N then
            '(_, text_chars') <- enumerate_next (text_chars r) ;;
            Ok (mk_reader text_chars' (hidden_bytes r)
                          (current_byte r ++ "1")%string)
          else
            Ok (mk_reader (text_chars r) (hidden_bytes r)
                          (current_byte r ++ "0")%string)) ;;
    if String.eqb (current_byte r) "00000000" then Ok (Break r)
    else if String.length (current_byte r) =? 8 then
      n <- int_base2 (current_byte r) ;;
      b <- to_bytes_1 n ;;
      Ok (Continue (mk_reader (text_chars r) (hidden_bytes r ++ b) ""))
    else Ok (Continue r).

(** The loop [for index, char in text_chars]. *)
Fixpoint read_loop (fuel : nat) (text_ : text) (hidden_char : char)
         (r : reader) : result reader :=
  match fuel with
  | O => Raise OutOfFuel
  | S fuel' =>
      match enumerate_next (text_chars r) with
      | Raise StopIteration => Ok r
      | Raise e => Raise e
      | Ok (index, _, text_chars') =>
          step <- read_body text_ hidden_char index
                    (mk_reader text_chars' (hidden_bytes r) (current_byte r)) ;;
          match step with
          | Break r' => Ok r'
          | Continue r' => read_loop fuel' text_ hidden_char r'
          end
      end
  end.

(** The reader when the loop is entered. *)
Definition reader_init (text_ : text) : reader :=
  mk_reader (mk_enumerate 0 text_) [] "".

Definition read_steganography (text_ : text) (encoding : string)
           (hidden_char : char) : result text :=
  r <- read_loop (S (List.length text_)) text_ hidden_char
         (reader_init text_) ;;
  bytes_decode encoding (hidden_bytes r).

End Steganography.

(** ** Specification-level functions *)

(** The carrier with the marker after every character whose bit is set;
    characters beyond the bits are copied. *)
Fixpoint interleave (hidden_char : char) (carrier : text) (bits : list bool)
  : text :=
  match carrier, bits with
  | [], _ => []
  | c :: carrier', [] => c :: carrier'
  | c :: carrier', bit :: bits' =>
      c :: (if bit then [hidden_char] else [])
        ++ interleave hidden_char carrier' bits'
  end.

Definition count_ones (bits : list bool) : nat :=
  List.length (filter (fun b : bool => b) bits).

Definition remove_marker (hidden_char : char) (t : text) : text :=
  filter (fun c => negb (c =? hidden_char)%N) t.

(** The accumulator [current_byte] as a list of bits, and back. *)
Definition digit (bit : bool) : ascii := if bit then "1"%char else "0"%char.

Fixpoint digits (acc : list bool) : string :=
  match acc with
  | [] => ""
  | bit :: acc' => String (digit bit) (digits acc')
  end.

Definition N_of_bits (acc : list bool) : N :=
  fold_left (fun n (bit : bool) => (2 * n + if bit then 1 else 0)%N) acc 0%N.

Definition byte_of_bits (acc : list bool) : byte := byte_of_N (N_of_bits acc).

(** What recording one more bit does to the accumulator. *)
Inductive accumulated : Type :=
| Terminator
| Emit (b : byte)
| Partial (acc : list bool).

Definition accumulate (acc : list bool) (bit : bool) : accumulated :=
  let acc' := acc ++ [bit] in
  if List.length acc' =? 8 then
    if forallb negb acc' then Terminator else Emit (byte_of_bits acc')
  else Partial acc'.

(** The bytes the decoder collects from a stream of bits. *)
Fixpoint decode_bits (acc : list bool) (bits : list bool) : bytes :=
  match bits with
  | [] => []
  | bit :: bits' =>
      match accumulate acc bit with
      | Terminator => []
      | Emit b => b :: decode_bits [] bits'
      | Partial acc' => decode_bits acc' bits'
      end
  end.

(** The bytes the decoder collects from the characters [rest] that
    [enumerate] has not yielded yet. *)
Fixpoint scan (hidden_char : char) (rest : list char) (acc : list bool)
  : bytes :=
  match rest with
  | [] => []
  | _ :: rest1 =>
      match rest1 with
      | [] => []
      | next_char :: rest2 =>
          let bit := (next_char =? hidden_char)%N in
          let rest' := if bit then rest2 else rest1 in
          match accumulate acc bit with
          | Terminator => []
          | Emit b => b :: scan hidden_char rest' []
          | Partial acc' => scan hidden_char rest' acc'
          end
      end
  end.

(** The payload up to its first zero byte. *)
Fixpoint until_null (payload : bytes) : bytes :=
  match payload with
  | [] => []
  | b :: payload' =>
      if Byte.eqb b x00 then [] else b :: until_null payload'
  end.

(** The bits a generator still has to yield. *)
Definition generator_bits (str_encode : string -> text -> result bytes)
           (g : bit_generator) (bits : list bool) : Prop :=
  match g with
  | Suspended str_ encoding =>
      exists payload,
        str_encode encoding str_ = Ok payload /\ bits = bits_of_bytes payload
  | Running pending => bits = pending
  end.

(** The bits the decoder reads off [rest], were it never to stop at a
    zero byte: one per character that has a successor. *)
Fixpoint bits_read (hidden_char : char) (rest : list char) : list bool :=
  match rest with
  | [] => []
  | _ :: rest1 =>
      match rest1 with
      | [] => []
      | next_char :: rest2 =>
          let bit := (next_char =? hidden_char)%N in
          bit :: bits_read hidden_char (if bit then rest2 else rest1)
      end
  end.

(** [test()]: the lines it prints, and how it ends. *)
Definition test (str_encode : string -> text -> result bytes)
           (bytes_decode : string -> bytes -> result text)
  : list text * result unit :=
  let text_ := text_of_string "This is some long text to allow for encoding" in
  let secret := text_of_string "abcd" in
  match write_steganography str_encode text_ secret "utf-8" 95%N with
  | Raise e => ([], Raise e)
  | Ok text_with_secret =>
      match read_steganography bytes_decode text_with_secret "utf-8" 95%N
      with
      | Raise e => ([text_with_secret], Raise e)
      | Ok extracted_secret =>
          ([text_with_secret; extracted_secret], Ok tt)
      end
  end.

(** ** The bit sequencer *)

Lemma bits_of_byte_length (b : byte) : List.length (bits_of_byte b) = 8.
Proof. destruct b; reflexivity. Qed.

Lemma bits_of_bytes_length (payload : bytes) :
  List.length (bits_of_bytes payload) = List.length payload * 8.
Proof.
  induction payload as [|b payload IH]; simpl; [reflexivity|].
  rewrite length_app, bits_of_byte_length, IH. reflexivity.
Qed.

(** The bits are the digits of the byte, most significant first. *)
Lemma bits_of_byte_msb_first (b : byte) :
  bits_of_byte b =
  map (fun i => N.testbit (Byte.to_N b) i) [7; 6; 5; 4; 3; 2; 1; 0]%N.
Proof. destruct b; reflexivity. Qed.

Lemma byte_of_bits_of_byte (b : byte) : byte_of_bits (bits_of_byte b) = b.
Proof. destruct b; reflexivity. Qed.

Lemma bits_of_byte_null (b : byte) :
  forallb negb (bits_of_byte b) = Byte.eqb b x00.
Proof. destruct b; reflexivity. Qed.

(** ** The encoder *)

Lemma interleave_nil_bits (m : char) (carrier : text) :
  interleave m carrier [] = carrier.
Proof. destruct carrier; reflexivity. Qed.

Lemma interleave_length (m : char) (carrier : text) (bits : list bool) :
  List.length (interleave m carrier bits)
  = List.length carrier + count_ones (firstn (List.length carrier) bits).
Proof.
  revert bits; induction carrier as [|c carrier IH]; intros bits.
  - reflexivity.
  - destruct bits as [|bit bits]; simpl.
    + unfold count_ones; simpl. lia.
    + rewrite length_app, IH. unfold count_ones; simpl.
      destruct bit; simpl; lia.
Qed.

Lemma remove_marker_id (m : char) (carrier : text) :
  ~ In m carrier -> remove_marker m carrier = carrier.
Proof.
  induction carrier as [|c carrier IH]; intros Hm; simpl; [reflexivity|].
  destruct (N.eqb_spec c m) as [->|_]; simpl.
  - exfalso; apply Hm; left; reflexivity.
  - rewrite IH; [reflexivity|]. intros Hin; apply Hm; right; exact Hin.
Qed.

Lemma remove_marker_interleave (m : char) (carrier : text) (bits : list bool) :
  ~ In m carrier -> remove_marker m (interleave m carrier bits) = carrier.
Proof.
  revert bits; induction carrier as [|c carrier IH]; intros bits Hm.
  - reflexivity.
  - assert (Hc : (c =? m)%N = false).
    { apply N.eqb_neq; intros ->; apply Hm; left; reflexivity. }
    assert (Hm' : ~ In m carrier) by (intros Hin; apply Hm; right; exact Hin).
    destruct bits as [|bit bits].
    + apply remove_marker_id; exact Hm.
    + simpl. rewrite Hc. simpl. f_equal.
      destruct bit; simpl.
      * rewrite N.eqb_refl. simpl. apply IH; exact Hm'.
      * apply IH; exact Hm'.
Qed.

(** ** The accumulator of the decoder *)

Lemma digits_app (acc1 acc2 : list bool) :
  digits (acc1 ++ acc2) = (digits acc1 ++ digits acc2)%string.
Proof.
  induction acc1 as [|bit acc1 IH]; simpl; [reflexivity|].
  rewrite IH. reflexivity.
Qed.

Lemma digits_length (acc : list bool) :
  String.length (digits acc) = List.length acc.
Proof.
  induction acc as [|bit acc IH]; simpl; [reflexivity|].
  rewrite IH. reflexivity.
Qed.

Lemma digits_eqb_zeros (acc : list bool) (n : nat) :
  String.eqb (digits acc) (zeros n)
  = (List.length acc =? n) && forallb negb acc.
Proof.
  revert n; induction acc as [|bit acc IH]; intros [|n]; simpl;
    try reflexivity.
  rewrite IH. destruct bit; simpl; [|reflexivity].
  rewrite andb_false_r. reflexivity.
Qed.

Lemma int_base2_from_digits (acc : list bool) (n : N) :
  int_base2_from n (digits acc)
  = Ok (fold_left (fun k (bit : bool) => (2 * k + if bit then 1 else 0)%N)
                  acc n).
Proof.
  revert n; induction acc as [|bit acc IH]; intros n; simpl; [reflexivity|].
  destruct bit; simpl; rewrite IH; [reflexivity|].
  rewrite N.add_0_r. reflexivity.
Qed.

Lemma int_base2_digits (acc : list bool) :
  acc <> [] -> int_base2 (digits acc) = Ok (N_of_bits acc).
Proof.
  destruct acc as [|bit acc]; [congruence|]. intros _.
  unfold int_base2. change (digits (bit :: acc)) with
    (String (digit bit) (digits acc)).
  apply (int_base2_from_digits (bit :: acc) 0).
Qed.

Lemma to_bytes_1_of_bits (acc : list bool) :
  List.length acc = 8 -> to_bytes_1 (N_of_bits acc) = Ok [byte_of_bits acc].
Proof.
  intros Hlen.
  do 8 (destruct acc as [|[] acc]; try discriminate Hlen);
    destruct acc; try discriminate Hlen; reflexivity.
Qed.

Lemma accumulate_partial (acc acc' : list bool) (bit : bool) :
  List.length acc < 8 -> accumulate acc bit = Partial acc' ->
  acc' = acc ++ [bit] /\ List.length acc' < 8.
Proof.
  unfold accumulate. intros Hlen.
  destruct (Nat.eqb_spec (List.length (acc ++ [bit])) 8) as [|Hne].
  - destruct (forallb negb (acc ++ [bit])); discriminate.
  - intros [= <-]. split; [reflexivity|].
    rewrite length_app in *. simpl in *. lia.
Qed.

(** ** The decoder on bits *)

Lemma decode_bits_byte (b : byte) (bits : list bool) :
  decode_bits [] (bits_of_byte b ++ bits)
  = if Byte.eqb b x00 then [] else b :: decode_bits [] bits.
Proof. destruct b; reflexivity. Qed.

Lemma decode_bits_zeros (k : nat) :
  forall j, j < 8 -> decode_bits (repeat false j) (repeat false k) = [].
Proof.
  induction k as [|k IH]; intros j Hj; simpl; [reflexivity|].
  unfold accumulate. rewrite <- repeat_cons.
  change (false :: repeat false j) with (repeat false (S j)).
  rewrite repeat_length.
  destruct (Nat.eqb_spec (S j) 8) as [->|Hne].
  - reflexivity.
  - apply IH. lia.
Qed.

Lemma decode_bits_payload (payload : bytes) (k : nat) :
  decode_bits [] (bits_of_bytes payload ++ repeat false k)
  = until_null payload.
Proof.
  induction payload as [|b payload IH].
  - apply (decode_bits_zeros k 0). lia.
  - change (bits_of_bytes (b :: payload))
      with (bits_of_byte b ++ bits_of_bytes payload).
    rewrite <- app_assoc, decode_bits_byte. simpl.
    destruct (Byte.eqb b x00); [reflexivity|]. rewrite IH. reflexivity.
Qed.

Lemma until_null_id (payload : bytes) :
  ~ In x00 payload -> until_null payload = payload.
Proof.
  induction payload as [|b payload IH]; intros Hz; simpl; [reflexivity|].
  destruct (Byte.eqb b x00) eqn:Hb.
  - exfalso. apply Hz. left. symmetry. apply Byte.byte_dec_bl. exact Hb.
  - rewrite IH; [reflexivity|]. intros Hin; apply Hz; right; exact Hin.
Qed.

(** ** The decoder on an encoded carrier *)

Lemma scan_step (m c d : char) (rest : list char) (acc : list bool) :
  scan m (c :: d :: rest) acc
  = match accumulate acc (d =? m)%N with
    | Terminator => []
    | Emit b => b :: scan m (if (d =? m)%N then rest else d :: rest) []
    | Partial acc' => scan m (if (d =? m)%N then rest else d :: rest) acc'
    end.
Proof. reflexivity. Qed.

Lemma decode_bits_step (acc : list bool) (bit : bool) (bits : list bool) :
  decode_bits acc (bit :: bits)
  = match accumulate acc bit with
    | Terminator => []
    | Emit b => b :: decode_bits [] bits
    | Partial acc' => decode_bits acc' bits
    end.
Proof. reflexivity. Qed.

Lemma scan_plain (m : char) (carrier : text) :
  forall acc, ~ In m carrier ->
  scan m carrier acc
  = decode_bits acc (repeat false (List.length carrier - 1)).
Proof.
  induction carrier as [|c carrier IH]; intros acc Hm; [reflexivity|].
  destruct carrier as [|d carrier]; [reflexivity|].
  assert (Hd : (d =? m)%N = false).
  { apply N.eqb_neq; intros ->; apply Hm; right; left; reflexivity. }
  assert (Hm' : ~ In m (d :: carrier))
    by (intros Hin; apply Hm; right; exact Hin).
  rewrite scan_step, Hd.
  replace (List.length (c :: d :: carrier) - 1)
    with (S (List.length (d :: carrier) - 1)) by (simpl; lia).
  change (repeat false (S (List.length (d :: carrier) - 1)))
    with (false :: repeat false (List.length (d :: carrier) - 1)).
  rewrite decode_bits_step.
  destruct (accumulate acc false); [reflexivity| |]; rewrite IH by exact Hm';
    reflexivity.
Qed.

Lemma interleave_head (m d : char) (carrier : text) (bits : list bool) :
  exists tail, interleave m (d :: carrier) bits = d :: tail.
Proof. destruct bits as [|bit bits]; simpl; eauto. Qed.

Lemma interleave_step (m c : char) (carrier : text) (bit : bool)
      (bits : list bool) :
  interleave m (c :: carrier) (bit :: bits)
  = c :: (if bit then [m] else []) ++ interleave m carrier bits.
Proof. reflexivity. Qed.

Lemma scan_interleave (m : char) (bits : list bool) :
  forall carrier acc,
    ~ In m carrier -> List.length bits < List.length carrier ->
    scan m (interleave m carrier bits) acc
    = decode_bits acc
        (bits ++ repeat false (List.length carrier - List.length bits - 1)).
Proof.
  induction bits as [|bit bits IH]; intros carrier acc Hm Hlen.
  - rewrite interleave_nil_bits, scan_plain by exact Hm.
    simpl. rewrite Nat.sub_0_r. reflexivity.
  - destruct carrier as [|c [|d carrier]]; simpl in Hlen; try lia.
    assert (Hd : (d =? m)%N = false).
    { apply N.eqb_neq; intros ->; apply Hm; right; left; reflexivity. }
    assert (IH' : forall acc',
               scan m (interleave m (d :: carrier) bits) acc'
               = decode_bits acc'
                   (bits ++ repeat false
                      (List.length (c :: d :: carrier)
                       - List.length (bit :: bits) - 1))).
    { intros acc'. rewrite IH.
      - reflexivity.
      - intros Hin; apply Hm; right; exact Hin.
      - simpl; lia. }
    clear IH. rewrite interleave_step.
    destruct (interleave_head m d carrier bits) as (tail & Htail).
    rewrite <- app_comm_cons, decode_bits_step.
    destruct bit.
    + change (c :: [m] ++ interleave m (d :: carrier) bits)
        with (c :: m :: interleave m (d :: carrier) bits).
      rewrite scan_step, N.eqb_refl.
      destruct (accumulate acc true); [reflexivity| |]; rewrite IH';
        reflexivity.
    + change (c :: [] ++ interleave m (d :: carrier) bits)
        with (c :: interleave m (d :: carrier) bits).
      rewrite Htail, scan_step, Hd, <- Htail.
      destruct (accumulate acc false); [reflexivity| |]; rewrite IH';
        reflexivity.
Qed.

(** ** The loop of the decoder *)

(** One run of the loop body, when the current character is at [index]
    and [enumerate] has yielded it: the bits are the accumulator [acc]. *)
Lemma read_body_accumulate (m : char) (pre : list char) (c : char)
      (rest : list char) (hb : bytes) (acc : list bool) :
  List.length acc < 8 ->
  read_body (pre ++ c :: rest) m (List.length pre)
    (mk_reader (mk_enumerate (S (List.length pre)) rest) hb (digits acc))
  = match rest with
    | [] =>
        Ok (Break (mk_reader (mk_enumerate (S (List.length pre)) rest) hb
                             (digits acc)))
    | d :: rest2 =>
        let bit := (d =? m)%N in
        let it' :=
          if bit then mk_enumerate (S (S (List.length pre))) rest2
          else mk_enumerate (S (List.length pre)) rest in
        match accumulate acc bit with
        | Terminator => Ok (Break (mk_reader it' hb (digits (acc ++ [bit]))))
        | Emit b => Ok (Continue (mk_reader it' (hb ++ [b]) ""))
        | Partial acc' => Ok (Continue (mk_reader it' hb (digits acc')))
        end
    end.
Proof.
  intros Hacc. unfold read_body.
  rewrite length_app.
  destruct rest as [|d rest2]; simpl List.length.
  - destruct (Nat.leb_spec (List.length pre + 1) (List.length pre + 1));
      [reflexivity|lia].
  - destruct (Nat.leb_spec (List.length pre + S (S (List.length rest2)))
                (List.length pre + 1)); [lia|].
    unfold getitem.
    rewrite nth_error_app2 by lia.
    replace (List.length pre + 1 - List.length pre) with 1 by lia.
    simpl nth_error. cbv zeta. unfold bind at 1.
    assert (Hpush : forall it' bit,
      (r <- Ok (mk_reader it' hb
                  (digits acc ++ String (digit bit) "")%string) ;;
       if String.eqb (current_byte r) "00000000" then Ok (Break r)
       else if String.length (current_byte r) =? 8 then
         n <- int_base2 (current_byte r) ;;
         b <- to_bytes_1 n ;;
         Ok (Continue (mk_reader (text_chars r) (hidden_bytes r ++ b) ""))
       else Ok (Continue r))
      = match accumulate acc bit with
        | Terminator => Ok (Break (mk_reader it' hb (digits (acc ++ [bit]))))
        | Emit b => Ok (Continue (mk_reader it' (hb ++ [b]) ""))
        | Partial acc' => Ok (Continue (mk_reader it' hb (digits acc')))
        end).
    { intros it' bit. unfold bind at 1. simpl current_byte.
      simpl hidden_bytes. simpl text_chars.
      change (String (digit bit) "") with (digits [bit]).
      rewrite <- digits_app.
      change "00000000" with (zeros 8).
      rewrite digits_eqb_zeros, digits_length. unfold accumulate.
      destruct (Nat.eqb_spec (List.length (acc ++ [bit])) 8) as [H8|H8];
        simpl andb.
      - destruct (forallb negb (acc ++ [bit])); [reflexivity|].
        rewrite int_base2_digits by (destruct acc; discriminate).
        unfold bind at 1. rewrite to_bytes_1_of_bits by exact H8.
        reflexivity.
      - reflexivity. }
    destruct (d =? m)%N.
    + apply (Hpush (mk_enumerate (S (S (List.length pre))) rest2) true).
    + apply (Hpush (mk_enumerate (S (List.length pre)) (d :: rest2)) false).
Qed.

(** Below eight bits the body only records the bit. *)
Lemma read_body_partial (m : char) (pre : list char) (c d : char)
      (rest : list char) (hb : bytes) (acc : list bool) :
  List.length acc < 7 ->
  read_body (pre ++ c :: d :: rest) m (List.length pre)
    (mk_reader (mk_enumerate (S (List.length pre)) (d :: rest)) hb
               (digits acc))
  = Ok (Continue
          (mk_reader
             (if (d =? m)%N
              then mk_enumerate (S (S (List.length pre))) rest
              else mk_enumerate (S (List.length pre)) (d :: rest))
             hb (digits (acc ++ [(d =? m)%N])))).
Proof.
  intros Hlen. rewrite read_body_accumulate by lia. cbv zeta.
  unfold accumulate.
  destruct (Nat.eqb_spec (List.length (acc ++ [(d =? m)%N])) 8) as [H8|_];
    [|reflexivity].
  rewrite length_app in H8. simpl in H8. lia.
Qed.

(** The loop collects what [scan] collects, and never raises. *)
Lemma read_loop_scan (m : char) (fuel : nat) :
  forall (pre rest : list char) (hb : bytes) (acc : list bool),
    List.length rest < fuel -> List.length acc < 8 ->
    exists r,
      read_loop fuel (pre ++ rest) m
        (mk_reader (mk_enumerate (List.length pre) rest) hb (digits acc))
      = Ok r
      /\ hidden_bytes r = hb ++ scan m rest acc.
Proof.
  induction fuel as [|fuel IH]; intros pre rest hb acc Hfuel Hacc; [lia|].
  destruct rest as [|c rest].
  - eexists. split; [reflexivity|]. simpl. rewrite app_nil_r. reflexivity.
  - simpl read_loop. unfold enumerate_next. simpl enum_rest. simpl enum_index.
    rewrite (read_body_accumulate m pre c rest hb acc Hacc).
    destruct rest as [|d rest2].
    + eexists. split; [reflexivity|]. simpl. rewrite app_nil_r. reflexivity.
    + rewrite scan_step. cbv zeta.
      assert (Hpre1 : pre ++ c :: d :: rest2 = (pre ++ [c]) ++ d :: rest2)
        by (rewrite <- app_assoc; reflexivity).
      assert (Hpre2 : pre ++ c :: d :: rest2 = (pre ++ [c; d]) ++ rest2)
        by (rewrite <- app_assoc; reflexivity).
      assert (Hlen1 : S (List.length pre) = List.length (pre ++ [c]))
        by (rewrite length_app; simpl; lia).
      assert (Hlen2 : S (S (List.length pre)) = List.length (pre ++ [c; d]))
        by (rewrite length_app; simpl; lia).
      simpl in Hfuel.
      destruct (accumulate acc (d =? m)%N) as [|b|acc'] eqn:Hstep.
      * eexists. split; [reflexivity|]. simpl. rewrite app_nil_r.
        reflexivity.
      * unfold bind. change "" with (digits []).
        destruct (d =? m)%N.
        -- rewrite Hpre2, Hlen2.
           destruct (IH (pre ++ [c; d]) rest2 (hb ++ [b]) [])
             as (r & Hr & Hhb); [lia|simpl; lia|].
           exists r. split; [exact Hr|]. rewrite Hhb, <- app_assoc.
           reflexivity.
        -- rewrite Hpre1, Hlen1.
           destruct (IH (pre ++ [c]) (d :: rest2) (hb ++ [b]) [])
             as (r & Hr & Hhb); [simpl; lia|simpl; lia|].
           exists r. split; [exact Hr|]. rewrite Hhb, <- app_assoc.
           reflexivity.
      * unfold bind.
        destruct (accumulate_partial acc acc' _ Hacc Hstep) as [_ Hacc'].
        destruct (d =? m)%N.
        -- rewrite Hpre2, Hlen2.
           destruct (IH (pre ++ [c; d]) rest2 hb acc')
             as (r & Hr & Hhb); [lia|exact Hacc'|].
           exists r. split; [exact Hr|exact Hhb].
        -- rewrite Hpre1, Hlen1.
           destruct (IH (pre ++ [c]) (d :: rest2) hb acc')
             as (r & Hr & Hhb); [simpl; lia|exact Hacc'|].
           exists r. split; [exact Hr|exact Hhb].
Qed.

Section Properties.

Variable str_encode : string -> text -> result bytes.
Variable bytes_decode : string -> bytes -> result text.

Lemma generator_next_bits (g : bit_generator) (bits : list bool) :
  generator_bits str_encode g bits ->
  generator_next str_encode g = pop_bit bits.
Proof.
  destruct g as [s e|pending]; simpl.
  - intros (payload & -> & ->). reflexivity.
  - intros ->. reflexivity.
Qed.

(** The loop of the encoder writes the interleaved carrier, split into
    the buffer and the characters not yet taken from [text_chars]. *)
Lemma write_loop_spec (m : char) (carrier : list char) :
  forall (g : bit_generator) (bits : list bool) (buffer : text),
    generator_bits str_encode g bits ->
    exists buffer' rest g',
      write_loop str_encode m carrier g buffer = Ok (buffer', rest, g')
      /\ buffer' ++ rest = buffer ++ interleave m carrier bits
      /\ generator_bits str_encode g' (skipn (List.length carrier) bits).
Proof.
  induction carrier as [|c carrier IH]; intros g bits buffer Hg.
  - exists buffer, [], g. simpl. rewrite app_nil_r. auto.
  - simpl. rewrite (generator_next_bits g bits Hg).
    destruct bits as [|bit bits]; simpl.
    + exists (buffer ++ [c]), carrier, g. rewrite <- app_assoc.
      split; [reflexivity|]. split; [reflexivity|exact Hg].
    + destruct (IH (Running bits) bits
                  (if bit then (buffer ++ [c]) ++ [m] else buffer ++ [c])
                  eq_refl) as (buffer' & rest & g' & Hloop & Hout & Hg').
      exists buffer', rest, g'.
      split; [exact Hloop|]. split; [|exact Hg'].
      rewrite Hout. destruct bit; rewrite <- !app_assoc; reflexivity.
Qed.

(** What [write_steganography] returns, by the lengths of the payload
    under [utf-8] (the check before the loop) and under [encoding] (the
    loop and the check after it). *)
Lemma write_steganography_spec (carrier hidden_text : text)
      (encoding : string) (m : char) (payload8 payload : bytes) :
  str_encode "utf-8" hidden_text = Ok payload8 ->
  str_encode encoding hidden_text = Ok payload ->
  write_steganography str_encode carrier hidden_text encoding m
  = if (List.length payload8 * 8 + 1 <=? List.length carrier)
       && (List.length payload * 8 <=? List.length carrier)
    then Ok (interleave m carrier (bits_of_bytes payload))
    else Raise insufficient.
Proof.
  intros H8 Henc. unfold write_steganography, can_encode.
  rewrite H8. simpl.
  destruct (List.length payload8 * 8 + 1 <=? List.length carrier); simpl;
    [|reflexivity].
  destruct (write_loop_spec m carrier (Suspended hidden_text encoding)
              (bits_of_bytes payload) [])
    as (buffer' & rest & g' & Hloop & Hout & Hg').
  { exists payload; auto. }
  rewrite Hloop. simpl. rewrite (generator_next_bits _ _ Hg'), Hout. simpl.
  pose proof (bits_of_bytes_length payload) as Hlen.
  destruct (Nat.leb_spec (List.length payload * 8) (List.length carrier))
    as [Hle|Hlt].
  - rewrite skipn_all2 by lia. reflexivity.
  - destruct (skipn (List.length carrier) (bits_of_bytes payload)) eqn:Hs;
      [|reflexivity].
    exfalso. apply (f_equal (@List.length bool)) in Hs.
    rewrite length_skipn in Hs. simpl in Hs. lia.
Qed.

Lemma write_loop_preserves (m : char) (carrier : list char) :
  forall (g g' : bit_generator) (buffer buffer' : text) (rest : list char),
    write_loop str_encode m carrier g buffer = Ok (buffer', rest, g') ->
    remove_marker m (buffer' ++ rest)
    = remove_marker m buffer ++ remove_marker m carrier.
Proof.
  unfold remove_marker.
  induction carrier as [|c carrier IH]; intros g g' buffer buffer' rest.
  - simpl. intros [= <- <- <-]. rewrite !app_nil_r. reflexivity.
  - simpl write_loop.
    destruct (generator_next str_encode g) as [[bit g1]|e].
    + intros Hloop. apply IH in Hloop. rewrite Hloop.
      destruct bit; rewrite !filter_app; simpl; rewrite ?N.eqb_refl;
        simpl; destruct (negb (c =? m)%N);
        rewrite ?app_nil_r, <- ?app_assoc; reflexivity.
    + destruct e; try discriminate. intros [= <- <- <-].
      rewrite !filter_app, <- app_assoc. simpl.
      destruct (negb (c =? m)%N); reflexivity.
Qed.

(** The decoder returns the decoding of what [scan] collects. *)
Lemma read_steganography_scan (text_ : text) (encoding : string)
      (m : char) :
  read_steganography bytes_decode text_ encoding m
  = bytes_decode encoding (scan m text_ []).
Proof.
  unfold read_steganography, reader_init.
  destruct (read_loop_scan m (S (List.length text_)) [] text_ [] [])
    as (r & Hr & Hhb); [lia|simpl; lia|].
  change (read_loop (S (List.length text_)) text_ m
            (mk_reader (mk_enumerate 0 text_) [] ""))
    with (read_loop (S (List.length text_)) ([] ++ text_) m
            (mk_reader (mk_enumerate (List.length (@nil char)) text_) []
                       (digits []))).
  rewrite Hr. simpl. rewrite Hhb. reflexivity.
Qed.

(** Decoding an encoded carrier gives the payload up to its first zero
    byte, when the carrier is free of the marker and longer than the bit
    stream. *)
Lemma scan_encoded (m : char) (carrier : text) (payload : bytes) :
  ~ In m carrier ->
  List.length payload * 8 < List.length carrier ->
  scan m (interleave m carrier (bits_of_bytes payload)) []
  = until_null payload.
Proof.
  intros Hm Hlen. rewrite scan_interleave.
  - apply decode_bits_payload.
  - exact Hm.
  - rewrite bits_of_bytes_length. exact Hlen.
Qed.

Lemma can_encode_leb (carrier hidden_text : text) (encoding : string)
      (payload : bytes) :
  str_encode encoding hidden_text = Ok payload ->
  can_encode str_encode carrier hidden_text encoding
  = Ok (List.length payload * 8 + 1 <=? List.length carrier).
Proof. intros Henc. unfold can_encode. rewrite Henc. reflexivity. Qed.

Lemma can_encode_inv (carrier hidden_text : text) (encoding : string)
      (fits : bool) :
  can_encode str_encode carrier hidden_text encoding = Ok fits ->
  exists payload,
    str_encode encoding hidden_text = Ok payload
    /\ fits = (List.length payload * 8 + 1 <=? List.length carrier).
Proof.
  unfold can_encode.
  destruct (str_encode encoding hidden_text) as [payload|e]; simpl;
    [|discriminate].
  intros [= <-]. exists payload. auto.
Qed.

(** With the default encoding the check after the loop never fires. *)
Lemma guard_unreachable_utf8 (carrier hidden_text : text) (m : char) :
  can_encode str_encode carrier hidden_text "utf-8" = Ok true ->
  exists buffer rest g,
    write_loop str_encode m carrier (Suspended hidden_text "utf-8") []
    = Ok (buffer, rest, g)
    /\ generator_next str_encode g = Raise StopIteration.
Proof.
  intros Hfits. apply can_encode_inv in Hfits.
  destruct Hfits as (payload & Henc & Hfits).
  symmetry in Hfits. apply Nat.leb_le in Hfits.
  destruct (write_loop_spec m carrier (Suspended hidden_text "utf-8")
              (bits_of_bytes payload) [])
    as (buffer & rest & g & Hloop & _ & Hg).
  { exists payload; auto. }
  exists buffer, rest, g. split; [exact Hloop|].
  rewrite (generator_next_bits _ _ Hg), skipn_all2; [reflexivity|].
  rewrite bits_of_bytes_length. lia.
Qed.

(** A carrier that is too short for the utf-8 payload is refused,
    whatever the encoding. *)
Lemma precheck_refuses (carrier hidden_text : text) (encoding : string)
      (m : char) :
  can_encode str_encode carrier hidden_text "utf-8" = Ok false ->
  write_steganography str_encode carrier hidden_text encoding m
  = Raise insufficient.
Proof.
  intros Hfits. unfold write_steganography. rewrite Hfits. reflexivity.
Qed.

(** ** The properties of the specification *)

(** C1, as amended: for every carrier free of the marker and every hidden
    text whose payload under the encoding has no zero byte and decodes
    back to the hidden text, if [can_encode] is true under the encoding
    and under utf-8 (the check [write_steganography] runs), then encoding
    succeeds and decoding its result returns the hidden text. *)
Theorem roundtrip (carrier hidden_text : text) (encoding : string)
        (m : char) (payload : bytes) :
  ~ In m carrier ->
  str_encode encoding hidden_text = Ok payload ->
  ~ In x00 payload ->
  bytes_decode encoding payload = Ok hidden_text ->
  can_encode str_encode carrier hidden_text "utf-8" = Ok true ->
  can_encode str_encode carrier hidden_text encoding = Ok true ->
  exists encoded,
    write_steganography str_encode carrier hidden_text encoding m
    = Ok encoded
    /\ read_steganography bytes_decode encoded encoding m = Ok hidden_text.
Proof.
  intros Hm Henc Hnull Hdec Hfits8 Hfits.
  apply can_encode_inv in Hfits8. destruct Hfits8 as (payload8 & H8 & Hle8).
  rewrite (can_encode_leb _ _ _ _ Henc) in Hfits.
  injection Hfits as Hle.
  symmetry in Hle8. apply Nat.leb_le in Hle8. apply Nat.leb_le in Hle.
  exists (interleave m carrier (bits_of_bytes payload)). split.
  - rewrite (write_steganography_spec _ _ _ _ _ _ H8 Henc).
    replace (List.length payload8 * 8 + 1 <=? List.length carrier)
      with true by (symmetry; apply Nat.leb_le; lia).
    replace (List.length payload * 8 <=? List.length carrier)
      with true by (symmetry; apply Nat.leb_le; lia).
    reflexivity.
  - rewrite read_steganography_scan, scan_encoded by (try exact Hm; lia).
    rewrite until_null_id by exact Hnull. exact Hdec.
Qed.

(** C2: for a hidden text whose payload has B bytes and a carrier of
    length L, [can_encode] is true if and only if L >= 8*B + 1; it is
    false for every L < 8*B + 1 and true at L = 8*B + 1. *)
Theorem can_encode_capacity_boundary (carrier hidden_text : text)
        (encoding : string) (payload : bytes) :
  str_encode encoding hidden_text = Ok payload ->
  (can_encode str_encode carrier hidden_text encoding = Ok true
   <-> 8 * List.length payload + 1 <= List.length carrier)
  /\ (List.length carrier < 8 * List.length payload + 1 ->
      can_encode str_encode carrier hidden_text encoding = Ok false)
  /\ (List.length carrier = 8 * List.length payload + 1 ->
      can_encode str_encode carrier hidden_text encoding = Ok true).
Proof.
  intros Henc. rewrite (can_encode_leb _ _ _ _ Henc).
  destruct (Nat.leb_spec (List.length payload * 8 + 1)
              (List.length carrier)) as [Hle|Hlt].
  - split; [split; [lia|reflexivity]|]. split; [lia|reflexivity].
  - split; [split; [discriminate|lia]|]. split; [reflexivity|lia].
Qed.

(** C4: when recording a bit brings the accumulator of the decoder to
    exactly eight bits, the body of the loop interprets them as a byte at
    once: if all eight are zero the scan stops and no byte is appended,
    otherwise the byte is appended to the output and the accumulator is
    reset. *)
Theorem decoder_termination_rule (m : char) (pre : list char) (c d : char)
        (rest : list char) (hb : bytes) (acc : list bool) :
  List.length acc = 7 ->
  read_body (pre ++ c :: d :: rest) m (List.length pre)
    (mk_reader (mk_enumerate (S (List.length pre)) (d :: rest)) hb
               (digits acc))
  = let bit := (d =? m)%N in
    let text_chars' :=
      if bit then mk_enumerate (S (S (List.length pre))) rest
      else mk_enumerate (S (List.length pre)) (d :: rest) in
    if forallb negb (acc ++ [bit])
    then Ok (Break (mk_reader text_chars' hb "00000000"))
    else Ok (Continue (mk_reader text_chars'
                         (hb ++ [byte_of_bits (acc ++ [bit])]) "")).
Proof.
  intros Hlen. rewrite read_body_accumulate by lia. cbv zeta.
  unfold accumulate.
  assert (H8 : List.length (acc ++ [(d =? m)%N]) = 8)
    by (rewrite length_app; simpl; lia).
  rewrite H8. simpl Nat.eqb. cbv iota.
  destruct (forallb negb (acc ++ [(d =? m)%N])) eqn:Hz; [|reflexivity].
  do 3 f_equal.
  change "00000000" with (zeros 8). apply String.eqb_eq.
  rewrite digits_eqb_zeros, H8, Hz. reflexivity.
Qed.

(** C6: when encoding succeeds, the length of the encoded text is the
    length of the carrier plus the number of 1-bits among the bits of the
    payload that the carrier consumed. *)
Theorem encoded_length (carrier hidden_text : text) (encoding : string)
        (m : char) (payload : bytes) (encoded : text) :
  str_encode encoding hidden_text = Ok payload ->
  write_steganography str_encode carrier hidden_text encoding m
  = Ok encoded ->
  List.length encoded
  = List.length carrier
    + count_ones (firstn (List.length carrier) (bits_of_bytes payload)).
Proof.
  intros Henc Hwrite.
  destruct (str_encode "utf-8" hidden_text) as [payload8|e] eqn:H8.
  - rewrite (write_steganography_spec _ _ _ _ _ _ H8 Henc) in Hwrite.
    destruct (_ && _) in Hwrite; [|discriminate].
    injection Hwrite as <-. apply interleave_length.
  - unfold write_steganography, can_encode in Hwrite.
    rewrite H8 in Hwrite. discriminate.
Qed.

(** C8: when the current character is the last one of the text, the body
    of the loop stops the scan whatever the accumulator holds, and the
    decoder returns the decoding of the bytes collected so far; on every
    text the loop ends without raising. *)
Theorem decoder_stops_at_end_of_text (m : char) (encoding : string)
        (pre : list char) (c : char) (hb : bytes) (cb : string)
        (fuel : nat) :
  (forall r : reader,
      read_body (pre ++ [c]) m (List.length pre) r = Ok (Break r))
  /\ (r <- read_loop (S fuel) (pre ++ [c]) m
             (mk_reader (mk_enumerate (List.length pre) [c]) hb cb) ;;
      bytes_decode encoding (hidden_bytes r))
     = bytes_decode encoding hb
  /\ (forall text_ : text,
         exists r,
           read_loop (S (List.length text_)) text_ m (reader_init text_)
           = Ok r
           /\ read_steganography bytes_decode text_ encoding m
              = bytes_decode encoding (hidden_bytes r)).
Proof.
  assert (Hbody : forall r : reader,
             read_body (pre ++ [c]) m (List.length pre) r = Ok (Break r)).
  { intros r. unfold read_body. rewrite length_app. simpl List.length.
    rewrite Nat.leb_refl. reflexivity. }
  split; [exact Hbody|]. split.
  - simpl read_loop. unfold enumerate_next. simpl enum_rest.
    simpl enum_index. rewrite Hbody. reflexivity.
  - intros text_.
    destruct (read_loop_scan m (S (List.length text_)) [] text_ [] [])
      as (r & Hr & _); [lia|simpl; lia|].
    exists r. split; [exact Hr|].
    unfold read_steganography.
    change (reader_init text_)
      with (mk_reader (mk_enumerate (List.length (@nil char)) text_) []
                      (digits [])).
    change text_ with ([] ++ text_) at 2.
    rewrite Hr. reflexivity.
Qed.

(** C9, as amended: for every non-empty carrier free of the marker, under
    an encoding that gives the empty text the empty payload (as utf-8
    does) and decodes the empty payload to the empty text, encoding the
    empty hidden text succeeds, the output is the carrier, and decoding
    it gives the empty text. *)
Theorem empty_payload (carrier : text) (encoding : string) (m : char) :
  carrier <> [] ->
  ~ In m carrier ->
  str_encode "utf-8" [] = Ok [] ->
  str_encode encoding [] = Ok [] ->
  bytes_decode encoding [] = Ok [] ->
  write_steganography str_encode carrier [] encoding m = Ok carrier
  /\ read_steganography bytes_decode carrier encoding m = Ok [].
Proof.
  intros Hne Hm H8 Henc Hdec.
  assert (Hlen : 0 < List.length carrier)
    by (destruct carrier; [congruence|simpl; lia]).
  split.
  - rewrite (write_steganography_spec _ _ _ _ _ _ H8 Henc).
    simpl. rewrite interleave_nil_bits.
    destruct carrier; [congruence|reflexivity].
  - rewrite read_steganography_scan.
    rewrite <- (interleave_nil_bits m carrier) at 1.
    change (@nil bool) with (bits_of_bytes []) at 1.
    rewrite scan_encoded by (try exact Hm; simpl; lia).
    exact Hdec.
Qed.

(** C10: for every carrier free of the marker and every hidden text for
    which encoding succeeds, deleting the markers from the encoded text
    gives back the carrier. *)
Theorem carrier_preserved (carrier hidden_text : text) (encoding : string)
        (m : char) (encoded : text) :
  ~ In m carrier ->
  write_steganography str_encode carrier hidden_text encoding m
  = Ok encoded ->
  remove_marker m encoded = carrier.
Proof.
  intros Hm. unfold write_steganography.
  destruct (can_encode str_encode carrier hidden_text "utf-8")
    as [[|]|e]; simpl; try discriminate.
  destruct (write_loop str_encode m carrier
              (Suspended hidden_text encoding) [])
    as [[[buffer rest] g]|e] eqn:Hloop; simpl; [|discriminate].
  destruct (generator_next str_encode g) as [?|e]; [discriminate|].
  destruct e; try discriminate. intros [= <-].
  rewrite (write_loop_preserves _ _ _ _ _ _ _ Hloop).
  apply remove_marker_id. exact Hm.
Qed.

End Properties.

(** ** The program on concrete inputs *)

Lemma not_In_forallb (m : char) (t : text) :
  forallb (fun c => negb (c =? m)%N) t = true -> ~ In m t.
Proof.
  intros Hall Hin. rewrite forallb_forall in Hall.
  specialize (Hall m Hin). rewrite N.eqb_refl in Hall. discriminate.
Qed.

Lemma not_In_null (payload : bytes) :
  forallb (fun b => negb (Byte.eqb b x00)) payload = true ->
  ~ In x00 payload.
Proof.
  intros Hall Hin. rewrite forallb_forall in Hall.
  specialize (Hall x00 Hin). discriminate.
Qed.

(** The example of the repository: "abcd" hidden with the marker "_". *)
Lemma roundtrip_witness :
  exists encoded,
    write_steganography Codecs.str_encode
      (text_of_string "This is some long text to allow for encoding")
      (text_of_string "abcd") "utf-8" 95%N
    = Ok encoded
    /\ read_steganography Codecs.bytes_decode encoded "utf-8" 95%N
       = Ok (text_of_string "abcd").
Proof.
  apply (roundtrip Codecs.str_encode Codecs.bytes_decode
           (text_of_string "This is some long text to allow for encoding")
           (text_of_string "abcd") "utf-8" 95%N [x61; x62; x63; x64]).
  - apply not_In_forallb. vm_compute. reflexivity.
  - vm_compute. reflexivity.
  - apply not_In_null. vm_compute. reflexivity.
  - vm_compute. reflexivity.
  - vm_compute. reflexivity.
  - vm_compute. reflexivity.
Defined.

(** C1 as stated fails: a hidden text with a NUL character is cut at its
    zero byte, and a marker inside the carrier is read as a bit. *)
Lemma roundtrip_counterexample :
  (can_encode Codecs.str_encode (text_of_string "aaaaaaaaa") [0%N] "utf-8"
   = Ok true
   /\ (encoded <- write_steganography Codecs.str_encode
                    (text_of_string "aaaaaaaaa") [0%N] "utf-8"
                    ZERO_WIDTH_SPACE ;;
       read_steganography Codecs.bytes_decode encoded "utf-8"
         ZERO_WIDTH_SPACE)
      <> Ok [0%N])
  /\ (can_encode Codecs.str_encode (text_of_string "a_aaaaaaaa")
        (text_of_string "a") "utf-8"
      = Ok true
      /\ (encoded <- write_steganography Codecs.str_encode
                       (text_of_string "a_aaaaaaaa") (text_of_string "a")
                       "utf-8" 95%N ;;
          read_steganography Codecs.bytes_decode encoded "utf-8" 95%N)
         <> Ok (text_of_string "a")).
Proof.
  split; split; try (vm_compute; reflexivity); vm_compute; discriminate.
Qed.

Lemma can_encode_capacity_boundary_witness :
  Codecs.str_encode "utf-8" (text_of_string "abcd")
  = Ok [x61; x62; x63; x64]
  /\ can_encode Codecs.str_encode (repeat 97%N 33) (text_of_string "abcd")
       "utf-8" = Ok true
  /\ can_encode Codecs.str_encode (repeat 97%N 32) (text_of_string "abcd")
       "utf-8" = Ok false.
Proof.
  assert (Henc : Codecs.str_encode "utf-8" (text_of_string "abcd")
                 = Ok [x61; x62; x63; x64]) by (vm_compute; reflexivity).
  split; [exact Henc|]. split.
  - apply (can_encode_capacity_boundary Codecs.str_encode (repeat 97%N 33)
             _ _ _ Henc).
    reflexivity.
  - apply (can_encode_capacity_boundary Codecs.str_encode (repeat 97%N 32)
             _ _ _ Henc).
    simpl. lia.
Defined.

(** C3 (code bug): the capacity check of [write_steganography] is run on
    the utf-8 payload, not on the payload under the encoding of the caller:
    nine characters can hold the one latin-1 byte of U+00E9, yet the
    encoder refuses them. *)
Theorem precheck_ignores_encoding :
  can_encode Codecs.str_encode (text_of_string "aaaaaaaaa") [233%N] "latin-1"
  = Ok true
  /\ can_encode Codecs.str_encode (text_of_string "aaaaaaaaa") [233%N]
       "utf-8" = Ok false
  /\ write_steganography Codecs.str_encode (text_of_string "aaaaaaaaa")
       [233%N] "latin-1" ZERO_WIDTH_SPACE
     = Raise insufficient.
Proof. repeat split; vm_compute; reflexivity. Qed.

Lemma decoder_termination_rule_witness :
  read_body (text_of_string "xh_i") 95%N 1
    (mk_reader (mk_enumerate 2 (text_of_string "_i")) []
               (digits [false; true; true; false; false; false; false]))
  = Ok (Continue (mk_reader (mk_enumerate 3 (text_of_string "i")) [x61] "")).
Proof.
  apply (decoder_termination_rule 95%N [120%N] 104%N 95%N [105%N] []
           [false; true; true; false; false; false; false]).
  reflexivity.
Defined.

(** C5 (code bug): sixteen characters are fewer than the seventeen slots
    the two utf-16-le bytes of "a" need, yet the encoder returns an
    output. *)
Theorem short_carrier_encoded :
  can_encode Codecs.str_encode (text_of_string "aaaaaaaaaaaaaaaa")
    (text_of_string "a") "utf-16-le"
  = Ok false
  /\ write_steganography Codecs.str_encode
       (text_of_string "aaaaaaaaaaaaaaaa") (text_of_string "a") "utf-16-le"
       95%N
     = Ok (text_of_string "aa_a_aaaaa_aaaaaaaa").
Proof. split; vm_compute; reflexivity. Qed.

Lemma encoded_length_witness :
  List.length (text_of_string "aa_a_aaaaa_a")
  = List.length (text_of_string "aaaaaaaaa")
    + count_ones (firstn (List.length (text_of_string "aaaaaaaaa"))
                         (bits_of_bytes [x61])).
Proof.
  apply (encoded_length Codecs.str_encode (text_of_string "aaaaaaaaa")
           (text_of_string "a") "utf-8" 95%N [x61]
           (text_of_string "aa_a_aaaaa_a")).
  - vm_compute. reflexivity.
  - vm_compute. reflexivity.
Defined.

(** C7 (code bug): the check before the loop passes on the utf-8 payload
    of "a", the loop runs out of carrier after nine of the sixteen
    utf-16-le bits, and the check after the loop fires. *)
Theorem guard_fires :
  can_encode Codecs.str_encode (text_of_string "aaaaaaaaa")
    (text_of_string "a") "utf-8"
  = Ok true
  /\ write_loop Codecs.str_encode 95%N (text_of_string "aaaaaaaaa")
       (Suspended (text_of_string "a") "utf-16-le") []
     = Ok (text_of_string "aa_a_aaaaa_a", [],
           Running [false; false; false; false; false; false; false])
  /\ generator_next Codecs.str_encode
       (Running [false; false; false; false; false; false; false])
     = Ok (false, Running [false; false; false; false; false; false])
  /\ write_steganography Codecs.str_encode (text_of_string "aaaaaaaaa")
       (text_of_string "a") "utf-16-le" 95%N
     = Raise insufficient.
Proof. repeat split; vm_compute; reflexivity. Qed.

Lemma empty_payload_witness :
  write_steganography Codecs.str_encode (text_of_string "carrier") []
    "utf-8" ZERO_WIDTH_SPACE
  = Ok (text_of_string "carrier")
  /\ read_steganography Codecs.bytes_decode (text_of_string "carrier")
       "utf-8" ZERO_WIDTH_SPACE
     = Ok [].
Proof.
  apply (empty_payload Codecs.str_encode Codecs.bytes_decode
           (text_of_string "carrier") "utf-8" ZERO_WIDTH_SPACE).
  - discriminate.
  - apply not_In_forallb. vm_compute. reflexivity.
  - reflexivity.
  - reflexivity.
  - reflexivity.
Defined.

(** C9 as stated fails: a carrier that holds markers is returned as it is
    by the encoder and decodes to the text its markers spell. *)
Lemma empty_payload_counterexample :
  text_of_string "ab_c_defgh_i" <> []
  /\ write_steganography Codecs.str_encode (text_of_string "ab_c_defgh_i")
       [] "utf-8" 95%N
     = Ok (text_of_string "ab_c_defgh_i")
  /\ read_steganography Codecs.bytes_decode (text_of_string "ab_c_defgh_i")
       "utf-8" 95%N
     = Ok (text_of_string "a")
  /\ text_of_string "a" <> [].
Proof.
  split; [discriminate|]. split; [vm_compute; reflexivity|].
  split; [vm_compute; reflexivity|discriminate].
Qed.

Lemma carrier_preserved_witness :
  remove_marker 95%N (text_of_string "aa_a_aaaaa_a")
  = text_of_string "aaaaaaaaa".
Proof.
  apply (carrier_preserved Codecs.str_encode (text_of_string "aaaaaaaaa")
           (text_of_string "a") "utf-8" 95%N).
  - apply not_In_forallb. vm_compute. reflexivity.
  - vm_compute. reflexivity.
Defined.


(** ** Further properties of the bit sequencer *)

Lemma bits_of_byte_nth (b : byte) (i : nat) :
  i < 8 ->
  nth_error (bits_of_byte b) i
  = Some (N.testbit (Byte.to_N b) (N.of_nat (7 - i))).
Proof.
  intros Hi. rewrite bits_of_byte_msb_first.
  do 8 (destruct i as [|i]; [reflexivity|]). lia.
Qed.

(** X1: the generator yields eight bits per byte of the payload, in the
    order of the bytes and most significant bit first: bit [i] of the
    stream is bit [7 - i mod 8] of byte [i / 8]. *)
Theorem bit_stream_positions (payload : bytes) :
  List.length (bits_of_bytes payload) = 8 * List.length payload
  /\ forall i, i < 8 * List.length payload ->
       nth_error (bits_of_bytes payload) i
       = Some (N.testbit (Byte.to_N (nth (i / 8) payload x00))
                         (N.of_nat (7 - i mod 8))).
Proof.
  split; [rewrite bits_of_bytes_length; lia|].
  induction payload as [|b payload IH]; intros i Hi; [simpl in Hi; lia|].
  change (bits_of_bytes (b :: payload))
    with (bits_of_byte b ++ bits_of_bytes payload).
  destruct (Nat.lt_ge_cases i 8) as [Hlt|Hge].
  - rewrite nth_error_app1 by (rewrite bits_of_byte_length; exact Hlt).
    rewrite Nat.div_small, Nat.mod_small by exact Hlt.
    apply bits_of_byte_nth; exact Hlt.
  - rewrite nth_error_app2 by (rewrite bits_of_byte_length; exact Hge).
    rewrite bits_of_byte_length.
    replace i with ((i - 8) + 1 * 8) at 2 3 by lia.
    rewrite Nat.div_add, Nat.Div0.mod_add by lia.
    rewrite IH by (simpl in Hi; lia).
    replace ((i - 8) / 8 + 1) with (S ((i - 8) / 8)) by lia.
    reflexivity.
Qed.

(** X2: the digits the encoder formats a byte into are eight, and the
    decoder's [int(current_byte, 2).to_bytes(1)] turns them back into that
    byte. *)
Theorem format_parse_roundtrip (b : byte) :
  String.length (format_08b b) = 8
  /\ (n <- int_base2 (format_08b b) ;; to_bytes_1 n) = Ok [b].
Proof. destruct b; split; reflexivity. Qed.

(** ** Further properties of the decoder on bits *)

Lemma accumulate_emit_nonnull (acc : list bool) (bit : bool) (b : byte) :
  accumulate acc bit = Emit b ->
  b <> x00 /\ List.length acc = 7.
Proof.
  unfold accumulate.
  destruct (Nat.eqb_spec (List.length (acc ++ [bit])) 8) as [H8|_];
    [|discriminate].
  destruct (forallb negb (acc ++ [bit])) eqn:Hz; [discriminate|].
  intros [= <-]. split.
  - revert H8 Hz. generalize (acc ++ [bit]) as l. intros l H8.
    do 8 (destruct l as [|[] l]; try discriminate H8);
      destruct l; try discriminate H8; simpl; intros Hz;
      try discriminate Hz; discriminate.
  - rewrite length_app in H8. simpl in H8. lia.
Qed.



(** ** Further properties of the decoder on texts *)

Lemma bits_read_step (m c d : char) (rest : list char) :
  bits_read m (c :: d :: rest)
  = (d =? m)%N :: bits_read m (if (d =? m)%N then rest else d :: rest).
Proof. reflexivity. Qed.

(** The decoder is [decode_bits] after [bits_read]. *)
Lemma scan_bits_read (m : char) (n : nat) :
  forall t acc, List.length t <= n ->
  scan m t acc = decode_bits acc (bits_read m t).
Proof.
  induction n as [|n IH]; intros t acc Hn.
  - destruct t; [reflexivity|simpl in Hn; lia].
  - destruct t as [|c [|d rest]]; [reflexivity|reflexivity|].
    rewrite scan_step, bits_read_step, decode_bits_step. simpl in Hn.
    destruct (accumulate acc (d =? m)%N); [reflexivity| |];
      rewrite IH by (destruct (d =? m)%N; simpl; lia); reflexivity.
Qed.


Lemma bits_read_ext (m : char) (n : nat) :
  forall t1 t2, List.length t1 <= n ->
  map (fun c => (c =? m)%N) t1 = map (fun c => (c =? m)%N) t2 ->
  bits_read m t1 = bits_read m t2.
Proof.
  induction n as [|n IH]; intros t1 t2 Hn Hmap.
  - destruct t1; [|simpl in Hn; lia]. destruct t2; [reflexivity|].
    discriminate Hmap.
  - destruct t1 as [|c1 [|d1 r1]]; destruct t2 as [|c2 [|d2 r2]];
      try discriminate Hmap; try reflexivity.
    rewrite !bits_read_step. simpl in Hmap, Hn.
    injection Hmap as _ Hd Hr. rewrite <- Hd. f_equal.
    destruct (d1 =? m)%N eqn:Hd1.
    + apply IH; [lia|exact Hr].
    + apply IH; [simpl; lia|]. simpl. rewrite Hd1, <- Hd, Hr. reflexivity.
Qed.



Lemma scan_no_null (m : char) (n : nat) :
  forall t acc, List.length t <= n -> ~ In x00 (scan m t acc).
Proof.
  induction n as [|n IH]; intros t acc Hn.
  - destruct t; [intros []|simpl in Hn; lia].
  - destruct t as [|c [|d rest]]; [intros []|intros []|].
    rewrite scan_step. simpl in Hn.
    assert (Hrest : List.length (if (d =? m)%N then rest else d :: rest)
                    <= n) by (destruct (d =? m)%N; simpl; lia).
    destruct (accumulate acc (d =? m)%N) as [|b|acc'] eqn:Hstep.
    + intros [].
    + intros [Hb|Hin].
      * apply accumulate_emit_nonnull in Hstep. destruct Hstep as [Hne _].
        apply Hne. exact Hb.
      * exact (IH _ _ Hrest Hin).
    + apply IH. exact Hrest.
Qed.


(** ** Further properties of the encoder *)

Lemma interleave_split (m : char) (bits : list bool) :
  forall carrier, List.length bits <= List.length carrier ->
  interleave m carrier bits
  = interleave m (firstn (List.length bits) carrier) bits
    ++ skipn (List.length bits) carrier.
Proof.
  induction bits as [|bit bits IH]; intros carrier Hlen.
  - rewrite interleave_nil_bits. reflexivity.
  - destruct carrier as [|c carrier]; simpl in Hlen; [lia|].
    simpl List.length. simpl firstn. simpl skipn.
    rewrite !interleave_step, (IH carrier) at 1 by lia.
    rewrite <- app_comm_cons, <- app_assoc. reflexivity.
Qed.

Lemma interleave_hd (m : char) (carrier : text) (bits : list bool) :
  hd_error (interleave m carrier bits) = hd_error carrier.
Proof. destruct carrier, bits; reflexivity. Qed.

Lemma interleave_isolated (m : char) (carrier : text) :
  forall bits i,
    ~ In m carrier ->
    nth_error (interleave m carrier bits) i = Some m ->
    nth_error (interleave m carrier bits) (S i) <> Some m.
Proof.
  induction carrier as [|c carrier IH]; intros bits i Hm Hi.
  - destruct i; discriminate Hi.
  - assert (Hc : c <> m) by (intros ->; apply Hm; left; reflexivity).
    assert (Hm' : ~ In m carrier)
      by (intros Hin; apply Hm; right; exact Hin).
    destruct bits as [|bit bits].
    + rewrite interleave_nil_bits in Hi. apply nth_error_In in Hi.
      contradiction.
    + rewrite interleave_step in *.
      destruct i as [|i]; [injection Hi as Hi; contradiction|].
      destruct bit.
      * change (c :: [m] ++ interleave m carrier bits)
          with (c :: m :: interleave m carrier bits) in *.
        destruct i as [|i].
        -- change (nth_error (interleave m carrier bits) 0 <> Some m).
           rewrite nth_error_0, interleave_hd.
           destruct carrier as [|d carrier]; [discriminate|].
           simpl. intros [= ->]. apply Hm'. left. reflexivity.
        -- exact (IH bits i Hm' Hi).
      * exact (IH bits i Hm' Hi).
Qed.

Section Further.

Variable str_encode : string -> text -> result bytes.
Variable bytes_decode : string -> bytes -> result text.

(** Whatever the generator does, a loop that ends normally has written
    the carrier interleaved with some bits. *)
Lemma write_loop_interleave (m : char) (carrier : list char) :
  forall (g g' : bit_generator) (buffer buffer' : text) (rest : list char),
    write_loop str_encode m carrier g buffer = Ok (buffer', rest, g') ->
    exists bits, buffer' ++ rest = buffer ++ interleave m carrier bits.
Proof.
  induction carrier as [|c carrier IH]; intros g g' buffer buffer' rest.
  - simpl. intros [= <- <- <-]. exists []. reflexivity.
  - simpl write_loop.
    destruct (generator_next str_encode g) as [[bit g1]|e].
    + intros Hloop. apply IH in Hloop. destruct Hloop as (bits & Hout).
      exists (bit :: bits). rewrite Hout, interleave_step.
      destruct bit; rewrite <- !app_assoc; reflexivity.
    + destruct e; try discriminate. intros [= <- <- <-].
      exists []. rewrite <- app_assoc. reflexivity.
Qed.

Lemma write_ok_interleave (carrier hidden_text : text) (encoding : string)
      (m : char) (encoded : text) :
  write_steganography str_encode carrier hidden_text encoding m
  = Ok encoded ->
  exists bits, encoded = interleave m carrier bits.
Proof.
  unfold write_steganography.
  destruct (can_encode str_encode carrier hidden_text "utf-8")
    as [[|]|e]; simpl; try discriminate.
  destruct (write_loop str_encode m carrier
              (Suspended hidden_text encoding) [])
    as [[[buffer rest] g]|e] eqn:Hloop; simpl; [|discriminate].
  destruct (generator_next str_encode g) as [?|e]; [discriminate|].
  destruct e; try discriminate. intros [= <-].
  apply write_loop_interleave in Hloop. exact Hloop.
Qed.

(** X3: a hidden text is recovered up to the first zero byte of its
    payload: for a carrier free of the marker on which both capacity
    checks pass, decoding the encoded text gives the decoding of the
    payload cut before that byte. *)
Theorem decode_cuts_at_null (carrier hidden_text : text) (encoding : string)
        (m : char) (payload : bytes) :
  ~ In m carrier ->
  str_encode encoding hidden_text = Ok payload ->
  can_encode str_encode carrier hidden_text "utf-8" = Ok true ->
  can_encode str_encode carrier hidden_text encoding = Ok true ->
  exists encoded,
    write_steganography str_encode carrier hidden_text encoding m
    = Ok encoded
    /\ read_steganography bytes_decode encoded encoding m
       = bytes_decode encoding (until_null payload).
Proof.
  intros Hm Henc Hfits8 Hfits.
  apply can_encode_inv in Hfits8. destruct Hfits8 as (payload8 & H8 & Hle8).
  rewrite (can_encode_leb _ _ _ _ _ Henc) in Hfits.
  injection Hfits as Hle.
  symmetry in Hle8. apply Nat.leb_le in Hle8. apply Nat.leb_le in Hle.
  exists (interleave m carrier (bits_of_bytes payload)). split.
  - rewrite (write_steganography_spec _ _ _ _ _ _ _ H8 Henc).
    replace (List.length payload8 * 8 + 1 <=? List.length carrier)
      with true by (symmetry; apply Nat.leb_le; lia).
    replace (List.length payload * 8 <=? List.length carrier)
      with true by (symmetry; apply Nat.leb_le; lia).
    reflexivity.
  - rewrite read_steganography_scan, scan_encoded by (try exact Hm; lia).
    reflexivity.
Qed.

(** X4: on every text the loop of the decoder ends normally, and no byte
    it has collected is zero. *)
Theorem decoder_collects_no_null (text_ : text) (m : char) :
  exists r,
    read_loop (S (List.length text_)) text_ m (reader_init text_) = Ok r
    /\ ~ In x00 (hidden_bytes r).
Proof.
  destruct (read_loop_scan m (S (List.length text_)) [] text_ [] [])
    as (r & Hr & Hhb); [lia|simpl; lia|].
  exists r. split; [exact Hr|].
  rewrite Hhb. apply (scan_no_null m (List.length text_)). lia.
Qed.


(** X6: the empty carrier holds nothing, not even the empty hidden text:
    whenever the hidden text encodes under utf-8, [can_encode] is false
    and [write_steganography] raises the capacity error, under every
    encoding. *)
Theorem empty_carrier_refused (hidden_text : text) (encoding : string)
        (m : char) (payload8 : bytes) :
  str_encode "utf-8" hidden_text = Ok payload8 ->
  can_encode str_encode [] hidden_text "utf-8" = Ok false
  /\ write_steganography str_encode [] hidden_text encoding m
     = Raise insufficient.
Proof.
  intros H8.
  assert (Hfits : can_encode str_encode [] hidden_text "utf-8" = Ok false).
  { rewrite (can_encode_leb _ _ _ _ _ H8). f_equal.
    apply Nat.leb_gt. simpl. lia. }
  split; [exact Hfits|]. apply precheck_refuses. exact Hfits.
Qed.

(** X7: with the default encoding [can_encode] is exact:
    [write_steganography] returns an output if and only if [can_encode]
    is true. *)
Theorem can_encode_exact_utf8 (carrier hidden_text : text) (m : char) :
  (exists encoded,
      write_steganography str_encode carrier hidden_text "utf-8" m
      = Ok encoded)
  <-> can_encode str_encode carrier hidden_text "utf-8" = Ok true.
Proof.
  split.
  - intros (encoded & Hwrite). unfold write_steganography in Hwrite.
    destruct (can_encode str_encode carrier hidden_text "utf-8")
      as [[|]|e]; simpl in Hwrite; [reflexivity|discriminate|discriminate].
  - intros Hfits. pose proof Hfits as Hinv. apply can_encode_inv in Hinv.
    destruct Hinv as (payload & Henc & Hle).
    symmetry in Hle. apply Nat.leb_le in Hle.
    exists (interleave m carrier (bits_of_bytes payload)).
    rewrite (write_steganography_spec _ _ _ _ _ _ _ Henc Henc).
    replace (List.length payload * 8 + 1 <=? List.length carrier)
      with true by (symmetry; apply Nat.leb_le; lia).
    replace (List.length payload * 8 <=? List.length carrier)
      with true by (symmetry; apply Nat.leb_le; lia).
    reflexivity.
Qed.

(** X8: when encoding succeeds, the carrier has a character for every bit
    of the payload, and the characters after those are the end of the
    output, unchanged; what precedes them is as long as the bits and their
    1-bits together. *)
Theorem carrier_tail_copied (carrier hidden_text : text) (encoding : string)
        (m : char) (payload : bytes) (encoded : text) :
  str_encode encoding hidden_text = Ok payload ->
  write_steganography str_encode carrier hidden_text encoding m
  = Ok encoded ->
  8 * List.length payload <= List.length carrier
  /\ exists head,
       encoded = head ++ skipn (8 * List.length payload) carrier
       /\ List.length head
          = 8 * List.length payload + count_ones (bits_of_bytes payload).
Proof.
  intros Henc Hwrite.
  destruct (str_encode "utf-8" hidden_text) as [payload8|e] eqn:H8.
  - rewrite (write_steganography_spec _ _ _ _ _ _ _ H8 Henc) in Hwrite.
    destruct (Nat.leb_spec (List.length payload * 8) (List.length carrier))
      as [Hle|Hlt]; [|rewrite andb_false_r in Hwrite; discriminate].
    destruct (_ <=? _) in Hwrite; [|discriminate].
    injection Hwrite as <-.
    pose proof (bits_of_bytes_length payload) as Hbits.
    split; [lia|].
    exists (interleave m (firstn (8 * List.length payload) carrier)
              (bits_of_bytes payload)).
    split.
    + rewrite (interleave_split m (bits_of_bytes payload) carrier) at 1
        by lia.
      replace (List.length (bits_of_bytes payload))
        with (8 * List.length payload) by lia.
      reflexivity.
    + rewrite interleave_length, length_firstn.
      rewrite Nat.min_l by lia.
      rewrite firstn_all2 by lia. reflexivity.
  - unfold write_steganography, can_encode in Hwrite.
    rewrite H8 in Hwrite. discriminate.
Qed.

(** X9: when the carrier is free of the marker, the encoded text starts
    as the carrier does and never has two markers in a row. *)
Theorem markers_isolated (carrier hidden_text : text) (encoding : string)
        (m : char) (encoded : text) :
  ~ In m carrier ->
  write_steganography str_encode carrier hidden_text encoding m
  = Ok encoded ->
  hd_error encoded = hd_error carrier
  /\ forall i, nth_error encoded i = Some m ->
       nth_error encoded (S i) <> Some m.
Proof.
  intros Hm Hwrite. apply write_ok_interleave in Hwrite.
  destruct Hwrite as (bits & ->). split.
  - apply interleave_hd.
  - intros i. apply interleave_isolated. exact Hm.
Qed.

(** X10: a hidden text that passes the utf-8 capacity check but cannot
    be encoded under the encoding of the caller makes
    [write_steganography] raise the exception of the codec. *)
Theorem codec_error_surfaces (carrier hidden_text : text)
        (encoding : string) (m : char) (e : exn) :
  can_encode str_encode carrier hidden_text "utf-8" = Ok true ->
  str_encode encoding hidden_text = Raise e ->
  e <> StopIteration ->
  write_steganography str_encode carrier hidden_text encoding m = Raise e.
Proof.
  intros Hfits Henc He. unfold write_steganography. rewrite Hfits. simpl.
  apply can_encode_inv in Hfits. destruct Hfits as (payload8 & _ & Hle).
  symmetry in Hle. apply Nat.leb_le in Hle.
  destruct carrier as [|c carrier]; [simpl in Hle; lia|].
  simpl. rewrite Henc. simpl. destruct e; try reflexivity. congruence.
Qed.


(** X12: a text without the marker hides nothing: the decoder returns
    the decoding of the empty byte string; so it does on the empty
    text. *)
Theorem plain_text_decodes_empty (text_ : text) (encoding : string)
        (m : char) :
  ~ In m text_ ->
  read_steganography bytes_decode text_ encoding m
  = bytes_decode encoding [].
Proof.
  intros Hm. rewrite read_steganography_scan, scan_plain by exact Hm.
  rewrite (decode_bits_zeros _ 0) by lia. reflexivity.
Qed.

(** X13: the decoder looks at a text only through where its markers are:
    two texts with the marker at the same positions decode alike. *)
Theorem decoder_sees_only_markers (text1 text2 : text) (encoding : string)
        (m : char) :
  map (fun c => (c =? m)%N) text1 = map (fun c => (c =? m)%N) text2 ->
  read_steganography bytes_decode text1 encoding m
  = read_steganography bytes_decode text2 encoding m.
Proof.
  intros Hmap. rewrite !read_steganography_scan.
  rewrite !(scan_bits_read m _ _ _ (Nat.le_refl _)).
  rewrite (bits_read_ext m _ text1 text2 (Nat.le_refl _) Hmap).
  reflexivity.
Qed.

End Further.

(** ** The further properties on concrete inputs *)

(** [test()] prints the encoded text and then the secret. *)
Lemma test_prints :
  test Codecs.str_encode Codecs.bytes_decode
  = ([text_of_string
        "Th_i_s is _so_m_e lo_ng _t_ext _t_o _a_llo_w for encoding";
      text_of_string "abcd"],
     Ok tt).
Proof. vm_compute. reflexivity. Qed.

Lemma bit_stream_positions_witness :
  nth_error (bits_of_bytes [x61; x62]) 9 = Some true.
Proof.
  apply (proj2 (bit_stream_positions [x61; x62]) 9). simpl. lia.
Defined.

Lemma decode_cuts_at_null_witness :
  exists encoded,
    write_steganography Codecs.str_encode (repeat 97%N 25)
      [97%N; 0%N; 98%N] "utf-8" 95%N
    = Ok encoded
    /\ read_steganography Codecs.bytes_decode encoded "utf-8" 95%N
       = Ok (text_of_string "a").
Proof.
  apply (decode_cuts_at_null Codecs.str_encode Codecs.bytes_decode
           (repeat 97%N 25) [97%N; 0%N; 98%N] "utf-8" 95%N
           [x61; x00; x62]).
  - apply not_In_forallb. vm_compute. reflexivity.
  - vm_compute. reflexivity.
  - vm_compute. reflexivity.
  - vm_compute. reflexivity.
Defined.

Lemma empty_carrier_refused_witness :
  can_encode Codecs.str_encode [] [] "utf-8" = Ok false
  /\ write_steganography Codecs.str_encode [] [] "latin-1"
       ZERO_WIDTH_SPACE
     = Raise insufficient.
Proof.
  apply (empty_carrier_refused Codecs.str_encode [] "latin-1"
           ZERO_WIDTH_SPACE []).
  reflexivity.
Defined.

Lemma carrier_tail_copied_witness :
  8 * List.length [x61] <= List.length (text_of_string "aaaaaaaaabcd")
  /\ exists head,
       text_of_string "aa_a_aaaaa_abcd"
       = head ++ skipn (8 * List.length [x61])
                       (text_of_string "aaaaaaaaabcd")
       /\ List.length head
          = 8 * List.length [x61] + count_ones (bits_of_bytes [x61]).
Proof.
  apply (carrier_tail_copied Codecs.str_encode
           (text_of_string "aaaaaaaaabcd") (text_of_string "a") "utf-8"
           95%N [x61] (text_of_string "aa_a_aaaaa_abcd")).
  - vm_compute. reflexivity.
  - vm_compute. reflexivity.
Defined.

Lemma markers_isolated_witness :
  hd_error (text_of_string "aa_a_aaaaa_a")
  = hd_error (text_of_string "aaaaaaaaa")
  /\ forall i,
       nth_error (text_of_string "aa_a_aaaaa_a") i = Some 95%N ->
       nth_error (text_of_string "aa_a_aaaaa_a") (S i) <> Some 95%N.
Proof.
  apply (markers_isolated Codecs.str_encode (text_of_string "aaaaaaaaa")
           (text_of_string "a") "utf-8" 95%N).
  - apply not_In_forallb. vm_compute. reflexivity.
  - vm_compute. reflexivity.
Defined.

Lemma codec_error_surfaces_witness :
  write_steganography Codecs.str_encode (repeat 97%N 25) [8364%N]
    "latin-1" ZERO_WIDTH_SPACE
  = Raise UnicodeEncodeError.
Proof.
  apply (codec_error_surfaces Codecs.str_encode (repeat 97%N 25) [8364%N]
           "latin-1" ZERO_WIDTH_SPACE UnicodeEncodeError).
  - vm_compute. reflexivity.
  - vm_compute. reflexivity.
  - discriminate.
Defined.


Lemma plain_text_decodes_empty_witness :
  read_steganography Codecs.bytes_decode (text_of_string "plain text")
    "utf-8" ZERO_WIDTH_SPACE
  = Ok [].
Proof.
  apply (plain_text_decodes_empty Codecs.bytes_decode
           (text_of_string "plain text") "utf-8" ZERO_WIDTH_SPACE).
  apply not_In_forallb. vm_compute. reflexivity.
Defined.

Lemma decoder_sees_only_markers_witness :
  read_steganography Codecs.bytes_decode (text_of_string "ab_cd") "utf-8"
    95%N
  = read_steganography Codecs.bytes_decode (text_of_string "xy_zw") "utf-8"
      95%N.
Proof.
  apply (decoder_sees_only_markers Codecs.bytes_decode
           (text_of_string "ab_cd") (text_of_string "xy_zw") "utf-8" 95%N).
  reflexivity.
Defined.

(** X14: the outcome of [write_steganography], by the two payloads: it
    returns an output exactly when the carrier has a character for every
    bit of the utf-8 payload and one more, and a character for every bit
    of the payload under the encoding of the caller; otherwise it raises
    the capacity error. *)
Theorem write_outcome (str_encode : string -> text -> result bytes)
        (carrier hidden_text : text) (encoding : string) (m : char)
        (payload8 payload : bytes) :
  str_encode "utf-8" hidden_text = Ok payload8 ->
  str_encode encoding hidden_text = Ok payload ->
  (8 * List.length payload8 + 1 <= List.length carrier
   /\ 8 * List.length payload <= List.length carrier ->
   exists encoded,
     write_steganography str_encode carrier hidden_text encoding m
     = Ok encoded)
  /\ (List.length carrier < 8 * List.length payload8 + 1
      \/ List.length carrier < 8 * List.length payload ->
      write_steganography str_encode carrier hidden_text encoding m
      = Raise insufficient).
Proof.
  intros H8 Henc.
  rewrite (write_steganography_spec _ _ _ _ _ _ _ H8 Henc).
  destruct (Nat.leb_spec (List.length payload8 * 8 + 1)
              (List.length carrier));
    destruct (Nat.leb_spec (List.length payload * 8) (List.length carrier));
    simpl; split; intros Hc; try lia; eauto.
Qed.

Lemma write_outcome_witness :
  (exists encoded,
      write_steganography Codecs.str_encode (repeat 97%N 17) [233%N]
        "latin-1" 95%N
      = Ok encoded)
  /\ write_steganography Codecs.str_encode (repeat 97%N 16) [233%N]
       "latin-1" 95%N
     = Raise insufficient.
Proof.
  assert (H8 : Codecs.str_encode "utf-8" [233%N] = Ok [xc3; xa9])
    by (vm_compute; reflexivity).
  assert (Henc : Codecs.str_encode "latin-1" [233%N] = Ok [xe9])
    by (vm_compute; reflexivity).
  split.
  - apply (write_outcome Codecs.str_encode (repeat 97%N 17) [233%N]
             "latin-1" 95%N [xc3; xa9] [xe9] H8 Henc).
    simpl. lia.
  - apply (write_outcome Codecs.str_encode (repeat 97%N 16) [233%N]
             "latin-1" 95%N [xc3; xa9] [xe9] H8 Henc).
    simpl. lia.
Defined.
